(** * Lyric timing engine of lyric-web: a shallow embedding of
    src/utils/lyricParser.ts and of the processing pipeline of App.tsx.

    Millisecond times are JavaScript numbers in the source; they are
    modelled as [Z] (integer milliseconds, no NaN or infinities).  A field
    that may be absent from untrusted raw data is an [option]; lodash's
    [get(o, k, d)] is [default d].  JavaScript's [n || d] on a number [n]
    is [js_or n d]: it yields [d] exactly when [n] is the falsy number 0. *)

From Stdlib Require Import ZArith NArith QArith List String Ascii Bool Sorted Lia.
Import ListNotations.
Open Scope Z_scope.

(** ** Data model *)

Record WordTiming := mkWord {
  text : string;
  startTime : Z;
  endTime : Z
}.

Record LyricLine := mkLine {
  line_text : string;
  words : list WordTiming;
  line_startTime : Z;
  line_endTime : Z
}.

(** Raw (untrusted) records: [WordData], [SentenceData],
    [LyricDataStructure], [LyricData]. *)
Record WordData := mkWordData {
  wd_data : option string;
  wd_startTime : option Z;
  wd_endTime : option Z
}.

Record SentenceData := mkSentence {
  sd_words : option (list WordData)
}.

Record LyricDataStructure := mkStructure {
  sentences : option (list SentenceData)
}.

Record LyricData := mkLyricData {
  err : option Z;
  ld_data : option LyricDataStructure
}.

(** ** lodash / JavaScript helpers *)

Definition default {A} (d : A) (o : option A) : A :=
  match o with Some x => x | None => d end.

(** [n || d] for a number [n]. *)
Definition js_or (n d : Z) : Z := if n =? 0 then d else n.

(** lodash [max([a, b])]. *)
Definition max2 (a b : Z) : Z := Z.max a b.

(** lodash [clamp(n, lower, upper)]. *)
Definition clamp (n lower upper : Z) : Z := Z.max lower (Z.min n upper).

(** lodash [compact]: drops the falsy entries ([null] here). *)
Fixpoint compact {A} (l : list (option A)) : list A :=
  match l with
  | [] => []
  | Some x :: r => x :: compact r
  | None :: r => compact r
  end.

(** [get(first(ws), 'startTime', 0)]. *)
Definition first_startTime (ws : list WordTiming) : Z :=
  match ws with [] => 0 | w :: _ => startTime w end.

(** [get(last(ws), 'endTime', 0)]. *)
Definition last_endTime (ws : list WordTiming) : Z :=
  match rev ws with [] => 0 | w :: _ => endTime w end.

(** lodash [findIndex]: index of the first match, or -1. *)
Fixpoint findIndex_from {A} (p : A -> bool) (l : list A) (i : Z) : Z :=
  match l with
  | [] => -1
  | x :: r => if p x then i else findIndex_from p r (i + 1)
  end.

Definition findIndex {A} (p : A -> bool) (l : list A) : Z := findIndex_from p l 0.

(** lodash [findLastIndex]: index of the last match, or -1 (the scan keeps
    the latest matching index seen so far). *)
Fixpoint findLastIndex_from {A} (p : A -> bool) (l : list A) (i acc : Z) : Z :=
  match l with
  | [] => acc
  | x :: r => findLastIndex_from p r (i + 1) (if p x then i else acc)
  end.

Definition findLastIndex {A} (p : A -> bool) (l : list A) : Z :=
  findLastIndex_from p l 0 (-1).

(** lodash [trim]: [string.slice(0, trimmedEndIndex(string) + 1)
    .replace(/^\s+/, '')], which strips the characters of JavaScript's
    [\s] class from the end, then from the start.  A JavaScript string is
    held as its UTF-8 encoding; every character of [\s] lies in the Basic
    Multilingual Plane, and on UTF-8 text a leading (trailing) [\s]
    character is exactly a leading (trailing) encoding of one of them. *)
Definition js_whitespace : list N :=
  [9; 10; 11; 12; 13; 32; 160; 5760;
   8192; 8193; 8194; 8195; 8196; 8197; 8198; 8199; 8200; 8201; 8202;
   8232; 8233; 8239; 8287; 12288; 65279]%N.

(** UTF-8 encoding of a code point of the Basic Multilingual Plane. *)
Definition utf8_encode (cp : N) : list ascii :=
  map ascii_of_N
    (if (cp <? 128)%N then [cp]
     else if (cp <? 2048)%N then [192 + cp / 64; 128 + cp mod 64]%N
     else [224 + cp / 4096; 128 + (cp / 64) mod 64; 128 + cp mod 64]%N).

Definition ws_encodings : list (list ascii) := map utf8_encode js_whitespace.

Fixpoint is_prefix (p l : list ascii) : bool :=
  match p, l with
  | [], _ => true
  | a :: p', b :: l' => Ascii.eqb a b && is_prefix p' l'
  | _ :: _, [] => false
  end.

(** Strips leading encodings of [encs]; each round removes at least one
    byte, so [fuel] = length of the input suffices. *)
Fixpoint strip_prefixes (encs : list (list ascii)) (fuel : nat) (l : list ascii)
  : list ascii :=
  match fuel with
  | O => l
  | S f =>
      match find (fun e => is_prefix e l) encs with
      | Some e => strip_prefixes encs f (skipn (List.length e) l)
      | None => l
      end
  end.

Definition trim_start (l : list ascii) : list ascii :=
  strip_prefixes ws_encodings (List.length l) l.

Definition trim_end (l : list ascii) : list ascii :=
  rev (strip_prefixes (map (@rev ascii) ws_encodings) (List.length l) (rev l)).

Definition trim (s : string) : string :=
  string_of_list_ascii (trim_start (trim_end (list_ascii_of_string s))).

(** [join(map(ws, 'text'), ' ')]. *)
Definition join_texts (ws : list WordTiming) : string :=
  String.concat " " (map text ws).

(** ** normalizeTiming *)

(** Step 1: delay offset and minimum duration of 300ms. *)
Definition normalize_word (delayMs : Z) (w : WordTiming) : WordTiming :=
  let s := startTime w + delayMs in
  let e := js_or (max2 (endTime w + delayMs) (s + 300)) (s + 300) in
  mkWord (text w) s e.

(** Step 2 for the words of index > 0: [prev] is [words[wordIndex - 1]],
    taken from the step-1 list (not from the gap-adjusted one). *)
Fixpoint enforce_gap (prev : WordTiming) (ws : list WordTiming) : list WordTiming :=
  match ws with
  | [] => []
  | w :: r =>
      let minGap := 100 in
      mkWord (text w)
        (js_or (max2 (startTime w) (endTime prev + minGap)) (startTime w))
        (endTime w)
      :: enforce_gap w r
  end.

Definition gap_words (ws : list WordTiming) : list WordTiming :=
  match ws with
  | [] => []
  | w :: r => w :: enforce_gap w r
  end.

Definition normalize_line (delayMs : Z) (lyric : LyricLine) : LyricLine :=
  let ws := map (normalize_word delayMs) (words lyric) in
  let normalizedWords := gap_words ws in
  mkLine (line_text lyric) normalizedWords
    (first_startTime normalizedWords) (last_endTime normalizedWords).

Definition normalizeTiming (lyrics : list LyricLine) (delayMs : Z) : list LyricLine :=
  map (normalize_line delayMs) lyrics.

(** ** mergeSentenceWords *)

Definition merge_line (lyric : LyricLine) : LyricLine :=
  let ws := words lyric in
  if (List.length ws <=? 1)%nat then lyric
  else
    let mergedWord := mkWord (line_text lyric) (first_startTime ws) (last_endTime ws) in
    mkLine (line_text lyric) [mergedWord] (startTime mergedWord) (endTime mergedWord).

Definition mergeSentenceWords (lyrics : list LyricLine) : list LyricLine :=
  match lyrics with
  | [] => []
  | _ => map merge_line lyrics
  end.

(** ** Locators *)

Definition line_contains (t : Z) (lyric : LyricLine) : bool :=
  (line_startTime lyric <=? t) && (t <=? line_endTime lyric).

Definition line_started (t : Z) (lyric : LyricLine) : bool :=
  line_startTime lyric <=? t.

(** [getCurrentLyricIndex]; [get(first(lyrics), 'startTime', 0)] is 0 on
    the empty list. *)
Definition getCurrentLyricIndex (lyrics : list LyricLine) (currentTimeMs : Z) : Z :=
  let firstStart := match lyrics with [] => 0 | l :: _ => line_startTime l end in
  if currentTimeMs <? firstStart then -1
  else
    let foundIndex := findIndex (line_contains currentTimeMs) lyrics in
    if negb (foundIndex =? -1) then foundIndex
    else
      let beforeIndex := findLastIndex (line_started currentTimeMs) lyrics in
      js_or (max2 0 beforeIndex) 0.

Definition word_contains (t : Z) (w : WordTiming) : bool :=
  (startTime w <=? t) && (t <=? endTime w).

Definition getCurrentWordIndex (lyric : LyricLine) (currentTimeMs : Z) : Z :=
  let ws := words lyric in
  let foundIndex := findIndex (word_contains currentTimeMs) ws in
  if negb (foundIndex =? -1) then foundIndex
  else if currentTimeMs <? first_startTime ws then -1
  else Z.of_nat (List.length ws).

(** ** Parsers *)

(** [processLyricData]: the parser of App.tsx's pipeline. *)
Definition process_word (word : WordData) : WordTiming :=
  mkWord (default ""%string (wd_data word))
    (default 0 (wd_startTime word)) (default 0 (wd_endTime word)).

Definition process_sentence (sentence : SentenceData) : option LyricLine :=
  match sd_words sentence with
  | None | Some [] => None
  | Some ws =>
      let ws' := map process_word ws in
      Some (mkLine (join_texts ws') ws' (first_startTime ws') (last_endTime ws'))
  end.

Definition processLyricData (data : LyricData) : list LyricLine :=
  match ld_data data with
  | None => []
  | Some st =>
      match sentences st with
      | None => []
      | Some ss => compact (map process_sentence ss)
      end
  end.

(** [parseLyricData]: the validating parser. *)
Definition parse_word (word : WordData) : option WordTiming :=
  let s := default 0 (wd_startTime word) in
  let e := default 0 (wd_endTime word) in
  let t := trim (default ""%string (wd_data word)) in
  if String.eqb t "" || (s <? 0) || (e <=? s) then None
  else Some (mkWord t s e).

Definition parse_sentence (sentence : SentenceData) : option LyricLine :=
  match default [] (sd_words sentence) with
  | [] => None
  | ws =>
      match compact (map parse_word ws) with
      | [] => None
      | wts => Some (mkLine (join_texts wts) wts (first_startTime wts) (last_endTime wts))
      end
  end.

Definition parseLyricData (lyricData : option LyricDataStructure) : list LyricLine :=
  match lyricData with
  | None => []
  | Some st =>
      match sentences st with
      | None => []
      | Some ss => compact (map parse_sentence ss)
      end
  end.

(** ** Processing pipeline of App.tsx ([lyricsWithTiming]) *)

Definition lyricsWithTiming (currentLyricData : LyricData) (lyricDelay : Z)
    (mergeSentences : bool) : list LyricLine :=
  let processed := processLyricData currentLyricData in
  let processed := if mergeSentences then mergeSentenceWords processed else processed in
  let safeDelay := clamp lyricDelay (-10000) 10000 in
  normalizeTiming processed safeDelay.

(** ** toggleSentenceMerge *)

Definition toggleSentenceMerge (lyrics originalLyrics : list LyricLine) : list LyricLine :=
  match lyrics, originalLyrics with
  | [], _ | _, [] => lyrics
  | _, _ =>
      let isMerged := forallb (fun lyric => (List.length (words lyric) =? 1)%nat) lyrics in
      if isMerged then originalLyrics else mergeSentenceWords lyrics
  end.

(** ** parseLyricDataOptimized (the parser of the lyric store) *)

(** [has(sentence, 'words') && size(get(sentence, 'words', [])) > 0]. *)
Definition sentence_has_word_list (sentence : SentenceData) : bool :=
  match sd_words sentence with Some (_ :: _) => true | _ => false end.

(** [has(word, 'data') && trim(get(word, 'data', ''))]. *)
Definition optimized_word_ok (word : WordData) : bool :=
  match wd_data word with
  | Some d => negb (String.eqb (trim d) "")
  | None => false
  end.

(** A missing endTime becomes [startTime + 500]. *)
Definition optimized_word (word : WordData) : WordTiming :=
  mkWord (trim (default ""%string (wd_data word)))
    (default 0 (wd_startTime word))
    (default (default 0 (wd_startTime word) + 500) (wd_endTime word)).

Definition optimized_sentence (sentence : SentenceData) : option LyricLine :=
  match filter optimized_word_ok (default [] (sd_words sentence)) with
  | [] => None
  | ws =>
      let wordTimings := map optimized_word ws in
      Some (mkLine (join_texts wordTimings) wordTimings
              (first_startTime wordTimings) (last_endTime wordTimings))
  end.

(** [get(lyricData, 'err') !== 0] also rejects a missing [err]. *)
Definition parseLyricDataOptimized (lyricData : LyricData) : list LyricLine :=
  match err lyricData with
  | Some 0 =>
      match ld_data lyricData with
      | None => []
      | Some st =>
          match sentences st with
          | None => []
          | Some ss => compact (map optimized_sentence (filter sentence_has_word_list ss))
          end
      end
  | _ => []
  end.

(** ** parseLyricFile, after [JSON.parse] (which is not modelled: a
    malformed file makes it throw) *)

Definition file_sentence (sentence : SentenceData) : option LyricLine :=
  match compact (map parse_word (default [] (sd_words sentence))) with
  | [] => None
  | wordTimings =>
      Some (mkLine (join_texts wordTimings) wordTimings
              (first_startTime wordTimings) (last_endTime wordTimings))
  end.

Definition parseLyricFile_parsed (data : LyricData) : list LyricLine :=
  match ld_data data with
  | None => []
  | Some st =>
      match sentences st with
      | None => []
      | Some ss => compact (map file_sentence ss)
      end
  end.

(** ** syncLyrics; [progress] is a JavaScript number, modelled as an exact
    rational. *)

Record SyncResult := mkSync {
  currentLine : option LyricLine;
  next : option LyricLine;
  index : Z;
  currentWordIndex : Z;
  progress : Q
}.

(** lodash [clamp] on numbers: [n <= upper ? n : upper], then
    [>= lower ? . : lower]. *)
Definition clampQ (n lower upper : Q) : Q :=
  let n1 := if Qle_bool n upper then n else upper in
  if Qle_bool lower n1 then n1 else lower.

(** [get] on [undefined] answers every field with its default, as this
    line does. *)
Definition undefined_line : LyricLine := mkLine "" [] 0 0.

Definition syncLyrics (lyrics : list LyricLine) (currentTime : Z) : SyncResult :=
  let beforeIndex := findLastIndex (line_started currentTime) lyrics in
  if beforeIndex =? -1 then
    mkSync None (hd_error lyrics) 0 (-1) 0%Q
  else
    let currentLyric := nth_error lyrics (Z.to_nat beforeIndex) in
    let cur := default undefined_line currentLyric in
    let nextLyric := nth_error lyrics (Z.to_nat (beforeIndex + 1)) in
    let cwi := getCurrentWordIndex cur currentTime in
    let s := line_startTime cur in
    let e := line_endTime cur in
    let p := if s <? e
             then clampQ ((inject_Z (currentTime - s)) / (inject_Z (e - s))) 0%Q 1%Q
             else 0%Q in
    mkSync currentLyric nextLyric beforeIndex cwi p.

(** ** The lyric store (stores/lyricStore.ts) and its processing cache *)

(** Lyric data objects are references: [nat] names an object of the
    [heap], and JavaScript's [===] on them is [Nat.eqb].  [default_ref] is
    the bundled lyric.json. *)
Record Env := mkEnv {
  heap : nat -> LyricData;
  default_ref : nat
}.

Record CustomLyricData := mkCustom {
  cl_data : nat;
  cl_fileName : string
}.

(** The fields of [ParsedLyricCache] that the store reads back
    ([parsedLyrics], [fileName] and [parseDate] are only written). *)
Record ParsedLyricCache := mkCache {
  originalData : nat;
  processedLyrics : list LyricLine;
  cache_lyricDelay : Z;
  cache_mergeSentences : bool
}.

Record LyricState := mkState {
  currentLyricData : option nat;
  lyricDelay : Z;
  mergeSentences : bool;
  customLyricData : option CustomLyricData;
  parsedCache : option ParsedLyricCache
}.

Definition initialState : LyricState := mkState None 0 false None None.

Definition setCurrentLyricData (data : option nat) (s : LyricState) : LyricState :=
  mkState data (lyricDelay s) (mergeSentences s) (customLyricData s) None.

Definition setLyricDelay (delay : Z) (s : LyricState) : LyricState :=
  mkState (currentLyricData s) (clamp delay (-10000) 10000) (mergeSentences s)
    (customLyricData s) None.

Definition setMergeSentences (merge : bool) (s : LyricState) : LyricState :=
  mkState (currentLyricData s) (lyricDelay s) merge (customLyricData s) None.

Definition loadLyricFromData (data : nat) (fileName : string) (s : LyricState) : LyricState :=
  mkState (Some data) (lyricDelay s) (mergeSentences s) (Some (mkCustom data fileName)) None.

Definition clearCache (s : LyricState) : LyricState :=
  mkState (currentLyricData s) (lyricDelay s) (mergeSentences s) (customLyricData s) None.

(** Leaves [parsedCache] in place. *)
Definition resetLyricSettings (s : LyricState) : LyricState :=
  mkState (currentLyricData s) 0 true (customLyricData s) (parsedCache s).

Definition resetAll (s : LyricState) : LyricState := mkState None 0 false None None.

Definition isCacheValid (s : LyricState) : bool :=
  match parsedCache s, currentLyricData s with
  | Some c, Some d =>
      (cache_lyricDelay c =? lyricDelay s) &&
      Bool.eqb (cache_mergeSentences c) (mergeSentences s) &&
      Nat.eqb (originalData c) d
  | _, _ => false
  end.

(** [getProcessedLyrics]: returns the lines and the store state after the
    call.  [parsedCache], [lyricDelay] and [mergeSentences] are read once at
    entry; [isCacheValid] reads the state after the fallbacks of step 1. *)
Definition getProcessedLyrics (env : Env) (s : LyricState) : list LyricLine * LyricState :=
  let parsedCache0 := parsedCache s in
  let lyricDelay0 := lyricDelay s in
  let mergeSentences0 := mergeSentences s in
  let '(dataToProcess, s1) :=
    match currentLyricData s with
    | Some d => (d, s)
    | None =>
        match customLyricData s with
        | Some c => (cl_data c, setCurrentLyricData (Some (cl_data c)) s)
        | None => (default_ref env, setCurrentLyricData (Some (default_ref env)) s)
        end
    end in
  let hit :=
    match parsedCache0 with
    | Some c0 => if isCacheValid s1 then Some (processedLyrics c0, s1) else None
    | None => None
    end in
  match hit with
  | Some r => r
  | None =>
      match parseLyricDataOptimized (heap env dataToProcess) with
      | [] => ([], s1)
      | processed =>
          let processed := if mergeSentences0 then mergeSentenceWords processed else processed in
          let withDelay := normalizeTiming processed lyricDelay0 in
          (withDelay,
           mkState (currentLyricData s1) (lyricDelay s1) (mergeSentences s1)
             (customLyricData s1)
             (Some (mkCache dataToProcess withDelay lyricDelay0 mergeSentences0)))
      end
  end.

(** [loadFromStorage] spreads the object that the storage store returns
    ([JSON.parse] of the saved text) over the state.  The saved object is
    modelled by the store's data fields it may carry, each with the field's
    type: [None] for an absent key, [Some None] for [null].  Its
    [currentLyricData] key is always overwritten and is left out. *)
Record SavedCustom := mkSavedCustom {
  sc_data : option LyricData;   (* [None]: missing or falsy [data] *)
  sc_fileName : string
}.

Record SavedCache := mkSavedCache {
  scache_originalData : LyricData;
  scache_processedLyrics : list LyricLine;
  scache_lyricDelay : Z;
  scache_mergeSentences : bool
}.

Record SavedLyric := mkSaved {
  sv_lyricDelay : option Z;
  sv_mergeSentences : option bool;
  sv_customLyricData : option (option SavedCustom);
  sv_parsedCache : option (option SavedCache)
}.

(** The JavaScript heap of lyric data objects and the store: ids from
    [w_next] on are not allocated yet. *)
Record World := mkWorld {
  w_env : Env;
  w_next : nat;
  w_state : LyricState
}.

(** A fresh object holding [v]. *)
Definition alloc (w : World) (v : LyricData) : nat * World :=
  (w_next w,
   mkWorld (mkEnv (fun n => if Nat.eqb n (w_next w) then v else heap (w_env w) n)
                  (default_ref (w_env w)))
           (S (w_next w)) (w_state w)).

Definition set_state (w : World) (s : LyricState) : World :=
  mkWorld (w_env w) (w_next w) s.

(** [loadFromStorage]: [saved] is the storage store's answer ([null] as
    [None]); [setThrows] is a store subscriber throwing during the first
    [set], which runs the [catch] branch.  [JSON.parse] has allocated the
    saved custom data object and the saved cache's [originalData] object.
    A saved [customLyricData] whose [data] is falsy is stored as [None]:
    getProcessedLyrics, the only reader of the field, treats both alike. *)
Definition loadFromStorage (w : World) (saved : option SavedLyric) (setThrows : bool)
  : World :=
  let s := w_state w in
  let D := default_ref (w_env w) in
  match saved with
  | None =>
      set_state w (mkState (Some D) (lyricDelay s) (mergeSentences s)
                     (customLyricData s) (parsedCache s))
  | Some sv =>
      let '(customData, w1) :=
        match sv_customLyricData sv with
        | Some (Some sc) =>
            match sc_data sc with
            | Some v => let '(id, w') := alloc w v in (Some id, w')
            | None => (None, w)
            end
        | _ => (None, w)
        end in
      let '(cacheData, w2) :=
        match sv_parsedCache sv with
        | Some (Some sc) =>
            let '(id, w') := alloc w1 (scache_originalData sc) in (Some id, w')
        | _ => (None, w1)
        end in
      let delay := match sv_lyricDelay sv with Some z => z | None => lyricDelay s end in
      let merge := match sv_mergeSentences sv with
                   | Some b => b
                   | None => mergeSentences s
                   end in
      let custom :=
        match sv_customLyricData sv with
        | None => customLyricData s
        | Some None => None
        | Some (Some sc) =>
            match customData with
            | Some id => Some (mkCustom id (sc_fileName sc))
            | None => None
            end
        end in
      let cache :=
        match sv_parsedCache sv, cacheData with
        | None, _ => parsedCache s
        | Some (Some sc), Some id =>
            Some (mkCache id (scache_processedLyrics sc) (scache_lyricDelay sc)
                    (scache_mergeSentences sc))
        | Some _, _ => None
        end in
      match customData with
      | Some id =>
          if setThrows then set_state w2 (mkState (Some D) delay merge None None)
          else set_state w2 (mkState (Some id) delay merge custom cache)
      | None => set_state w2 (mkState (Some D) delay merge custom cache)
      end
  end.

Inductive StoreAction :=
  | ASetCurrentLyricData (data : option nat)
  | ASetLyricDelay (delay : Z)
  | ASetMergeSentences (merge : bool)
  | ALoadLyricFromData (data : nat) (fileName : string)
  | AGetProcessedLyrics
  | AClearCache
  | AResetLyricSettings
  | AResetAll
  | ALoadFromStorage (saved : option SavedLyric) (setThrows : bool).

Definition step (w : World) (a : StoreAction) : World :=
  let s := w_state w in
  match a with
  | ASetCurrentLyricData d => set_state w (setCurrentLyricData d s)
  | ASetLyricDelay d => set_state w (setLyricDelay d s)
  | ASetMergeSentences m => set_state w (setMergeSentences m s)
  | ALoadLyricFromData d f => set_state w (loadLyricFromData d f s)
  | AGetProcessedLyrics => set_state w (snd (getProcessedLyrics (w_env w) s))
  | AClearCache => set_state w (clearCache s)
  | AResetLyricSettings => set_state w (resetLyricSettings s)
  | AResetAll => set_state w (resetAll s)
  | ALoadFromStorage saved b => loadFromStorage w saved b
  end.

Definition run (w : World) (actions : list StoreAction) : World :=
  fold_left step actions w.



(** What the store computes for a data object and settings. *)
Definition store_pipeline (env : Env) (d : nat) (delay : Z) (merge : bool) : list LyricLine :=
  let processed := parseLyricDataOptimized (heap env d) in
  normalizeTiming (if merge then mergeSentenceWords processed else processed) delay.




(** ** Concrete inputs *)

Definition word_a : WordTiming := mkWord "a" 0 100.
Definition word_b : WordTiming := mkWord "b" 50 150.
Definition line_ab : LyricLine := mkLine "a b" [word_a; word_b] 0 150.
Definition scenarioA : list LyricLine := [line_ab].

Definition raw_word (s : string) (st en : Z) : WordData :=
  mkWordData (Some s) (Some st) (Some en).
Definition raw_scenarioA : LyricData :=
  mkLyricData (Some 0) (Some (mkStructure (Some
    [mkSentence (Some [raw_word "a" 0 100; raw_word "b" 50 150])]))).


(** UTF-8 texts with JavaScript whitespace outside ASCII: a leading
    NO-BREAK SPACE (U+00A0), and a trailing IDEOGRAPHIC SPACE (U+3000). *)
Definition nbsp_la : string :=
  String (ascii_of_N 194) (String (ascii_of_N 160) "la")%string.
Definition la_ideographic_space : string :=
  String "l" (String "a" (String (ascii_of_N 227)
    (String (ascii_of_N 128) (String (ascii_of_N 128) EmptyString)))).
Definition raw_nbsp : LyricData :=
  mkLyricData (Some 0) (Some (mkStructure (Some
    [mkSentence (Some [raw_word nbsp_la 0 100])]))).

(** A heap whose objects all hold Scenario A; object 0 is the default
    lyric.json. *)
Definition store_env : Env := mkEnv (fun _ => raw_scenarioA) 0.

(** Saved data whose cache records the current settings but holds no lines. *)
Definition stale_saved : SavedLyric :=
  mkSaved (Some 500) (Some false)
    (Some (Some (mkSavedCustom (Some raw_scenarioA) "a.json")))
    (Some (Some (mkSavedCache raw_scenarioA [] 500 false))).

Definition restore_stale_cache : list StoreAction :=
  [ASetLyricDelay 20000; ALoadFromStorage (Some stale_saved) false].

(** Line startTimes non-decreasing in source order (the upstream order the
    code assumes and never establishes). *)
Fixpoint starts_sorted (lyrics : list LyricLine) : bool :=
  match lyrics with
  | a :: ((b :: _) as r) => (line_startTime a <=? line_startTime b) && starts_sorted r
  | _ => true
  end.

Definition sentence_has_words (sentence : SentenceData) : bool :=
  match sd_words sentence with Some (_ :: _) => true | _ => false end.


(** ** Concrete inputs of the claims *)

(** Scenario B of the spec: two lines with a gap between 500 and 1000. *)
Definition scenarioB : list LyricLine :=
  [mkLine "x" [] 0 500; mkLine "y" [] 1000 1500].

(** Lines whose start times are not in order. *)
Definition unordered_lines : list LyricLine :=
  [mkLine "p" [] 0 10; mkLine "q" [] 500 600; mkLine "r" [] 20 30].


(** Two words whose gap pass hits [max(...) = 0] under a -1000ms delay. *)
Definition gap_zero_line : LyricLine :=
  mkLine "a b" [mkWord "a" 500 900; mkWord "b" 600 700] 500 700.

Definition raw_gap_zero : LyricData :=
  mkLyricData (Some 0) (Some (mkStructure (Some
    [mkSentence (Some [raw_word "a" 500 900; raw_word "b" 600 700])]))).

(** A raw line whose only word has blank text and inverted negative times. *)
Definition raw_invalid_word : LyricData :=
  mkLyricData (Some 0) (Some (mkStructure (Some
    [mkSentence (Some [raw_word "  " (-5) (-10)])]))).

(** ** Lemmas on the lodash scans *)

Example normalize_scenarioA_eval :
  normalizeTiming scenarioA 0 =
  [mkLine "a b" [mkWord "a" 0 300; mkWord "b" 400 350] 0 350].
Proof. reflexivity. Qed.


Section Scans.
Context {A : Type} (p : A -> bool).



Lemma findIndex_from_cases (l : list A) (i : Z) :
  (findIndex_from p l i = -1 /\ forall x, In x l -> p x = false) \/
  (exists n x, findIndex_from p l i = i + Z.of_nat n /\ nth_error l n = Some x /\
     p x = true /\ forall m y, (m < n)%nat -> nth_error l m = Some y -> p y = false).
Proof.
  revert i; induction l as [|x r IH]; intros i.
  - left. split; [reflexivity | intros y []].
  - simpl. destruct (p x) eqn:Hpx.
    + right. exists 0%nat, x. repeat split; [lia | assumption | intros m y Hm; lia].
    + destruct (IH (i + 1)) as [[Hr Hnone] | (n & y & Hr & Hy & Hpy & Hb)].
      * left. split; [exact Hr|]. intros y [<-|Hy]; [exact Hpx | now apply Hnone].
      * right. exists (S n), y. repeat split; [lia | exact Hy | exact Hpy |].
        intros [|m] z Hm Hz; simpl in Hz.
        -- now inversion Hz; subst.
        -- apply (Hb m z); [lia | exact Hz].
Qed.

Lemma findLastIndex_from_none (l : list A) (i acc : Z) :
  (forall x, In x l -> p x = false) -> findLastIndex_from p l i acc = acc.
Proof.
  revert i acc; induction l as [|x r IH]; intros i acc Hn; simpl; [reflexivity|].
  rewrite (Hn x (or_introl eq_refl)). apply IH. intros y Hy. apply Hn. now right.
Qed.

Lemma findLastIndex_from_cases (l : list A) (i acc : Z) :
  (findLastIndex_from p l i acc = acc /\ forall x, In x l -> p x = false) \/
  (exists n x, findLastIndex_from p l i acc = i + Z.of_nat n /\ nth_error l n = Some x /\
     p x = true /\ forall m y, (n < m)%nat -> nth_error l m = Some y -> p y = false).
Proof.
  revert i acc; induction l as [|x r IH]; intros i acc.
  - left. split; [reflexivity | intros y []].
  - simpl. destruct (IH (i + 1) (if p x then i else acc))
      as [[Hr Hnone] | (n & y & Hr & Hy & Hpy & Ha)].
    + rewrite Hr. destruct (p x) eqn:Hpx.
      * right. exists 0%nat, x. repeat split; [lia | assumption |].
        intros [|m] z Hm Hz; [lia|]. simpl in Hz. apply Hnone. eapply nth_error_In; eauto.
      * left. split; [reflexivity|]. intros y [<-|Hy]; [exact Hpx | now apply Hnone].
    + right. exists (S n), y. repeat split; [lia | exact Hy | exact Hpy |].
      intros [|m] z Hm Hz; [lia|]. simpl in Hz. apply (Ha m z); [lia | exact Hz].
Qed.

Lemma findLastIndex_from_last (l : list A) (i acc : Z) (n : nat) (x : A) :
  nth_error l n = Some x -> p x = true ->
  (forall m y, (n < m)%nat -> nth_error l m = Some y -> p y = false) ->
  findLastIndex_from p l i acc = i + Z.of_nat n.
Proof.
  intros Hx Hp Hafter.
  destruct (findLastIndex_from_cases l i acc) as [[_ Hnone] | (k & y & Hr & Hy & Hpy & Ha)].
  - rewrite (Hnone x (nth_error_In _ _ Hx)) in Hp. discriminate.
  - rewrite Hr. f_equal. f_equal.
    destruct (Nat.lt_trichotomy n k) as [Hlt | [Heq | Hgt]]; [| now symmetry |].
    + rewrite (Hafter k y Hlt Hy) in Hpy. discriminate.
    + rewrite (Ha n x Hgt Hx) in Hp. discriminate.
Qed.

End Scans.

Lemma line_contains_iff (t : Z) (l : LyricLine) :
  line_contains t l = true <-> line_startTime l <= t <= line_endTime l.
Proof. unfold line_contains. rewrite andb_true_iff, !Z.leb_le. tauto. Qed.


Lemma line_started_iff (t : Z) (l : LyricLine) :
  line_started t l = true <-> line_startTime l <= t.
Proof. unfold line_started. apply Z.leb_le. Qed.

(** ** Lemmas on normalizeTiming *)

Lemma js_or_max_ge (a b : Z) : b <= js_or (max2 a b) b.
Proof. unfold js_or, max2. destruct (Z.max a b =? 0); lia. Qed.

Lemma normalize_word_start (d : Z) (w : WordTiming) :
  startTime (normalize_word d w) = startTime w + d.
Proof. reflexivity. Qed.

Lemma normalize_word_end (d : Z) (w : WordTiming) :
  startTime w + d + 300 <= endTime (normalize_word d w).
Proof. unfold normalize_word. simpl. apply js_or_max_ge. Qed.

Lemma enforce_gap_ends (prev : WordTiming) (ws : list WordTiming) :
  map endTime (enforce_gap prev ws) = map endTime ws.
Proof.
  revert prev; induction ws as [|w r IH]; intros prev; simpl; [reflexivity|].
  now rewrite IH.
Qed.

Lemma gap_words_ends (ws : list WordTiming) :
  map endTime (gap_words ws) = map endTime ws.
Proof. destruct ws as [|w r]; simpl; [reflexivity|]. now rewrite enforce_gap_ends. Qed.

Lemma gap_words_head (ws : list WordTiming) :
  nth_error (gap_words ws) 0 = nth_error ws 0.
Proof. now destruct ws. Qed.

Lemma gap_words_endTime_nth (ws : list WordTiming) (i : nat) (w : WordTiming) :
  nth_error (gap_words ws) i = Some w ->
  exists w', nth_error ws i = Some w' /\ endTime w = endTime w'.
Proof.
  intros H.
  assert (Hm : nth_error (map endTime (gap_words ws)) i = Some (endTime w))
    by now rewrite nth_error_map, H.
  rewrite gap_words_ends, nth_error_map in Hm.
  destruct (nth_error ws i) as [w'|] eqn:E; [|discriminate].
  exists w'. split; [reflexivity|]. now inversion Hm.
Qed.

(** ** Lemmas on mergeSentenceWords *)

Lemma last_endTime_nth (ws : list WordTiming) (wl : WordTiming) :
  nth_error ws (List.length ws - 1) = Some wl -> last_endTime ws = endTime wl.
Proof.
  intros H.
  destruct ws as [|w0 r]; [discriminate|].
  destruct (exists_last (l := w0 :: r) ltac:(discriminate)) as (l' & a & E).
  rewrite E in H |- *.
  rewrite length_app in H. simpl in H.
  replace (List.length l' + 1 - 1)%nat with (List.length l') in H by lia.
  rewrite nth_error_app2, Nat.sub_diag in H by lia. simpl in H. inversion H; subst.
  unfold last_endTime. now rewrite rev_unit.
Qed.

(** * Claims *)

(** ** C1: Scenario A *)

(** C1 (counterexample): on Scenario A with delay 0, word "b" does not
    come out with startTime 200 and endTime 500. *)
Lemma C1_scenarioA_not_200_500 :
  nth_error (words (hd line_ab (normalizeTiming scenarioA 0))) 1
  <> Some (mkWord "b" 200 500).
Proof. vm_compute. discriminate. Qed.

(** C1 (amended): on Scenario A with delay 0, word "b" gets startTime
    max(50, 300 + 100) = 400, measured from the step-1 endTime 300 of "a",
    and keeps the step-1 endTime max(150, 50 + 300) = 350. *)
Theorem C1_scenarioA_normalized :
  normalizeTiming scenarioA 0 =
  [mkLine "a b" [mkWord "a" 0 300; mkWord "b" 400 350] 0 350].
Proof. reflexivity. Qed.

(** ** C2: minimum word duration *)

(** C2 (counterexample): a word of the normalized Scenario A is shorter
    than 300ms (its endTime is even before its startTime). *)
Lemma C2_short_word :
  exists l w, In l (normalizeTiming scenarioA 0) /\ In w (words l) /\
    endTime w - startTime w < 300.
Proof.
  exists (mkLine "a b" [mkWord "a" 0 300; mkWord "b" 400 350] 0 350), (mkWord "b" 400 350).
  rewrite normalize_scenarioA_eval. simpl. repeat split; auto; lia.
Qed.

(** C2 (amended): every output word ends at least 300ms after its input
    startTime shifted by delayMs, and the first word of every line lasts at
    least 300ms; a later word whose start the gap pass pushes forward may be
    shorter. *)
Theorem C2_normalizeTiming_min_end (lyrics : list LyricLine) (delayMs : Z)
    (n : nat) (l : LyricLine) :
  nth_error (normalizeTiming lyrics delayMs) n = Some l ->
  exists l0, nth_error lyrics n = Some l0 /\
    (forall i w0 w, nth_error (words l0) i = Some w0 -> nth_error (words l) i = Some w ->
       startTime w0 + delayMs + 300 <= endTime w) /\
    (forall w, nth_error (words l) 0 = Some w -> 300 <= endTime w - startTime w).
Proof.
  intros Hl. unfold normalizeTiming in Hl. rewrite nth_error_map in Hl.
  destruct (nth_error lyrics n) as [l0|] eqn:E; [|discriminate].
  inversion Hl; subst l. clear Hl. exists l0. split; [reflexivity|]. split.
  - intros i w0 w H0 H. cbn [words normalize_line] in H.
    destruct (gap_words_endTime_nth _ _ _ H) as (w' & Hw' & Hend).
    rewrite nth_error_map, H0 in Hw'. inversion Hw'; subst w'.
    rewrite Hend. apply normalize_word_end.
  - intros w H. cbn [words normalize_line] in H. rewrite gap_words_head, nth_error_map in H.
    destruct (nth_error (words l0) 0) as [w0|]; [|discriminate].
    inversion H; subst w.
    pose proof (normalize_word_end delayMs w0). rewrite normalize_word_start. lia.
Qed.

Lemma C2_normalizeTiming_min_end_witness :
  exists l0, nth_error scenarioA 0 = Some l0 /\
    (forall i w0 w, nth_error (words l0) i = Some w0 ->
       nth_error (words (normalize_line 0 line_ab)) i = Some w ->
       startTime w0 + 0 + 300 <= endTime w) /\
    (forall w, nth_error (words (normalize_line 0 line_ab)) 0 = Some w ->
       300 <= endTime w - startTime w).
Proof. apply (C2_normalizeTiming_min_end scenarioA 0 0%nat). reflexivity. Defined.

(** ** C3: order of the pipeline stages *)

(** C3 (code bug): the documented order Parse -> Normalize -> Merge (the
    doc comments of the store's getProcessedLyrics and of the
    useProcessedLyrics hook, and the claim) is not what the code runs.  With
    merging on, App's pipeline and the store's both merge before they
    normalise.  On Scenario A both yield the single merged word 0..300,
    while merging the normalised timeline yields 0..350. *)
Theorem C3_pipelines_merge_before_normalize :
  lyricsWithTiming raw_scenarioA 0 true = [mkLine "a b" [mkWord "a b" 0 300] 0 300] /\
  mergeSentenceWords (normalizeTiming (processLyricData raw_scenarioA) 0)
    = [mkLine "a b" [mkWord "a b" 0 350] 0 350] /\
  store_pipeline (mkEnv (fun _ => raw_scenarioA) 0) 0 0 true
    = [mkLine "a b" [mkWord "a b" 0 300] 0 300] /\
  mergeSentenceWords (normalizeTiming (parseLyricDataOptimized raw_scenarioA) 0)
    = [mkLine "a b" [mkWord "a b" 0 350] 0 350].
Proof. repeat split; vm_compute; reflexivity. Qed.

(** ** C9: mergeSentenceWords *)

(** C9: mergeSentenceWords keeps the number of lines, returns a line with at
    most one word unchanged, and replaces a line with two or more words by
    one whose single word carries the line text, the first word's startTime
    and the last word's endTime, with the line bounds set to the same
    values. *)
Theorem C9_mergeSentenceWords_spec (lyrics : list LyricLine) :
  List.length (mergeSentenceWords lyrics) = List.length lyrics /\
  forall n l, nth_error lyrics n = Some l ->
    ((List.length (words l) <= 1)%nat -> nth_error (mergeSentenceWords lyrics) n = Some l) /\
    (forall w1 wl, (2 <= List.length (words l))%nat ->
       nth_error (words l) 0 = Some w1 ->
       nth_error (words l) (List.length (words l) - 1) = Some wl ->
       nth_error (mergeSentenceWords lyrics) n =
       Some (mkLine (line_text l) [mkWord (line_text l) (startTime w1) (endTime wl)]
               (startTime w1) (endTime wl))).
Proof.
  assert (Hmap : mergeSentenceWords lyrics = map merge_line lyrics)
    by now destruct lyrics.
  rewrite Hmap. split; [apply length_map|].
  intros n l Hl. rewrite nth_error_map, Hl. simpl. unfold merge_line. split.
  - intros Hle. apply Nat.leb_le in Hle. now rewrite Hle.
  - intros w1 wl H2 H1 Hlast.
    destruct (Nat.leb_spec (List.length (words l)) 1) as [Hle|_]; [lia|].
    rewrite (last_endTime_nth _ _ Hlast).
    destruct (words l) as [|w0 r]; [discriminate|]. simpl in H1. now inversion H1.
Qed.

Lemma C9_mergeSentenceWords_spec_witness :
  List.length (mergeSentenceWords scenarioA) = List.length scenarioA /\
  nth_error (mergeSentenceWords scenarioA) 0 =
  Some (mkLine "a b" [mkWord "a b" (startTime word_a) (endTime word_b)]
          (startTime word_a) (endTime word_b)).
Proof.
  destruct (C9_mergeSentenceWords_spec scenarioA) as [Hlen Hn]. split; [exact Hlen|].
  apply (proj2 (Hn 0%nat line_ab eq_refl)); simpl; [lia | reflexivity | reflexivity].
Defined.

(** ** C10: getCurrentLyricIndex on no lines *)

(** C10: on the empty line list getCurrentLyricIndex returns -1 for a
    negative time and 0, which refers to no line, for every time >= 0. *)
Theorem C10_getCurrentLyricIndex_empty (currentTimeMs : Z) :
  getCurrentLyricIndex [] currentTimeMs = if currentTimeMs <? 0 then -1 else 0.
Proof. unfold getCurrentLyricIndex. destruct (currentTimeMs <? 0); reflexivity. Qed.

(** ** C4: getCurrentLyricIndex *)

Lemma getCurrentLyricIndex_cons (l0 : LyricLine) (rest : list LyricLine) (t : Z) :
  line_startTime l0 <= t ->
  (exists n l, getCurrentLyricIndex (l0 :: rest) t = Z.of_nat n /\
     nth_error (l0 :: rest) n = Some l /\ line_contains t l = true /\
     forall m l', (m < n)%nat -> nth_error (l0 :: rest) m = Some l' -> line_contains t l' = false) \/
  ((forall l, In l (l0 :: rest) -> line_contains t l = false) /\
   exists n l, getCurrentLyricIndex (l0 :: rest) t = Z.of_nat n /\
     nth_error (l0 :: rest) n = Some l /\ line_started t l = true /\
     forall m l', (n < m)%nat -> nth_error (l0 :: rest) m = Some l' -> line_started t l' = false).
Proof.
  intros H0. unfold getCurrentLyricIndex.
  replace (t <? line_startTime l0) with false by (symmetry; apply Z.ltb_ge; lia).
  unfold findIndex.
  destruct (findIndex_from_cases (line_contains t) (l0 :: rest) 0)
    as [[Hf Hnone] | (n & l & Hf & Hn & Hc & Hb)].
  - right. split; [exact Hnone|]. rewrite Hf. simpl negb. cbv iota.
    unfold findLastIndex.
    destruct (findLastIndex_from_cases (line_started t) (l0 :: rest) 0 (-1))
      as [[_ Hns] | (n & l & Hr & Hn & Hs & Ha)].
    + exfalso. assert (Hs0 : line_started t l0 = true) by (apply line_started_iff; lia).
      rewrite (Hns l0 (or_introl eq_refl)) in Hs0. discriminate.
    + exists n, l. split; [|auto]. rewrite Hr. unfold js_or, max2.
      destruct (Z.max 0 (0 + Z.of_nat n) =? 0) eqn:Ez; [apply Z.eqb_eq in Ez|]; lia.
  - left. exists n, l. rewrite Hf.
    replace (0 + Z.of_nat n =? -1) with false by (symmetry; apply Z.eqb_neq; lia).
    simpl negb. cbv iota. split; [lia | auto].
Qed.

(** C4: on a non-empty line list, getCurrentLyricIndex returns -1 before the
    first line's startTime; otherwise the index of the first line whose
    closed interval contains the time; otherwise the index of the last line
    already started; Scenario B (time 700 in the gap) gives 0. *)
Theorem C4_getCurrentLyricIndex_spec (lyrics : list LyricLine) (l0 : LyricLine)
    (currentTimeMs : Z) :
  hd_error lyrics = Some l0 ->
  (currentTimeMs < line_startTime l0 -> getCurrentLyricIndex lyrics currentTimeMs = -1) /\
  (line_startTime l0 <= currentTimeMs -> forall n l,
     nth_error lyrics n = Some l ->
     line_startTime l <= currentTimeMs <= line_endTime l ->
     (forall m l', (m < n)%nat -> nth_error lyrics m = Some l' ->
        ~ (line_startTime l' <= currentTimeMs <= line_endTime l')) ->
     getCurrentLyricIndex lyrics currentTimeMs = Z.of_nat n) /\
  (line_startTime l0 <= currentTimeMs ->
     (forall l, In l lyrics -> ~ (line_startTime l <= currentTimeMs <= line_endTime l)) ->
     forall n l, nth_error lyrics n = Some l -> line_startTime l <= currentTimeMs ->
     (forall m l', (n < m)%nat -> nth_error lyrics m = Some l' ->
        currentTimeMs < line_startTime l') ->
     getCurrentLyricIndex lyrics currentTimeMs = Z.of_nat n) /\
  getCurrentLyricIndex scenarioB 700 = 0.
Proof.
  intros Hhd. destruct lyrics as [|x rest]; [discriminate|].
  simpl in Hhd. inversion Hhd; subst x. clear Hhd.
  split; [|split; [|split]].
  - intros Hlt. unfold getCurrentLyricIndex. now rewrite (proj2 (Z.ltb_lt _ _) Hlt).
  - intros H0 n l Hn Hc Hb.
    destruct (getCurrentLyricIndex_cons l0 rest currentTimeMs H0)
      as [(k & l' & Hr & Hk & Hc' & Hb') | [Hnone _]].
    + rewrite Hr. f_equal.
      destruct (Nat.lt_trichotomy k n) as [Hlt | [Heq | Hgt]]; [| exact Heq |].
      * exfalso. apply (Hb k l' Hlt Hk). now apply line_contains_iff.
      * exfalso. apply line_contains_iff in Hc.
        rewrite (Hb' n l Hgt Hn) in Hc. discriminate.
    + exfalso. apply line_contains_iff in Hc.
      rewrite (Hnone l (nth_error_In _ _ Hn)) in Hc. discriminate.
  - intros H0 Hnone n l Hn Hs Ha.
    destruct (getCurrentLyricIndex_cons l0 rest currentTimeMs H0)
      as [(k & l' & _ & Hk & Hc' & _) | [_ (k & l' & Hr & Hk & Hs' & Ha')]].
    + exfalso. apply (Hnone l' (nth_error_In _ _ Hk)). now apply line_contains_iff.
    + rewrite Hr. f_equal.
      destruct (Nat.lt_trichotomy k n) as [Hlt | [Heq | Hgt]]; [| exact Heq |].
      * apply line_started_iff in Hs. rewrite (Ha' n l Hlt Hn) in Hs. discriminate.
      * apply line_started_iff in Hs'. specialize (Ha k l' Hgt Hk). lia.
  - reflexivity.
Qed.

Lemma C4_getCurrentLyricIndex_spec_witness :
  hd_error scenarioB = Some (mkLine "x" [] 0 500) /\
  (700 < 0 -> getCurrentLyricIndex scenarioB 700 = -1) /\
  (0 <= 700 -> forall n l,
     nth_error scenarioB n = Some l ->
     line_startTime l <= 700 <= line_endTime l ->
     (forall m l', (m < n)%nat -> nth_error scenarioB m = Some l' ->
        ~ (line_startTime l' <= 700 <= line_endTime l')) ->
     getCurrentLyricIndex scenarioB 700 = Z.of_nat n) /\
  (0 <= 700 ->
     (forall l, In l scenarioB -> ~ (line_startTime l <= 700 <= line_endTime l)) ->
     forall n l, nth_error scenarioB n = Some l -> line_startTime l <= 700 ->
     (forall m l', (n < m)%nat -> nth_error scenarioB m = Some l' ->
        700 < line_startTime l') ->
     getCurrentLyricIndex scenarioB 700 = Z.of_nat n) /\
  getCurrentLyricIndex scenarioB 700 = 0.
Proof.
  split; [reflexivity|].
  exact (C4_getCurrentLyricIndex_spec scenarioB (mkLine "x" [] 0 500) 700 eq_refl).
Defined.

(** ** C5: getCurrentWordIndex *)




(** ** C6: monotonicity of getCurrentLyricIndex *)

Lemma starts_sorted_nth (lyrics : list LyricLine) :
  starts_sorted lyrics = true ->
  forall i j li lj, (i <= j)%nat -> nth_error lyrics i = Some li ->
    nth_error lyrics j = Some lj -> line_startTime li <= line_startTime lj.
Proof.
  induction lyrics as [|a r IH]; intros Hs i j li lj Hij Hi Hj; [destruct i; discriminate|].
  assert (Hr : starts_sorted r = true)
    by (destruct r; [reflexivity|]; simpl in Hs; apply andb_true_iff in Hs; tauto).
  destruct i as [|i], j as [|j]; simpl in Hi, Hj.
  - inversion Hi; inversion Hj; subst. lia.
  - inversion Hi; subst li. destruct r as [|b r']; [destruct j; discriminate|].
    simpl in Hs. apply andb_true_iff in Hs. destruct Hs as [Hab _]. apply Z.leb_le in Hab.
    assert (Hb : line_startTime b <= line_startTime lj) by (apply (IH Hr 0%nat j); auto; lia).
    lia.
  - lia.
  - apply (IH Hr i j); auto; lia.
Qed.

Lemma last_started_exists (l0 : LyricLine) (rest : list LyricLine) (t : Z) :
  line_startTime l0 <= t ->
  exists n l, nth_error (l0 :: rest) n = Some l /\ line_started t l = true /\
    forall m l', (n < m)%nat -> nth_error (l0 :: rest) m = Some l' -> line_started t l' = false.
Proof.
  intros H0.
  destruct (findLastIndex_from_cases (line_started t) (l0 :: rest) 0 (-1))
    as [[_ Hns] | (n & l & _ & Hn & Hs & Ha)].
  - exfalso. assert (Hs0 : line_started t l0 = true) by (apply line_started_iff; lia).
    rewrite (Hns l0 (or_introl eq_refl)) in Hs0. discriminate.
  - exists n, l. auto.
Qed.

Lemma index_le_last_started (lyrics : list LyricLine) (t : Z) (i n : nat) (li ln : LyricLine) :
  nth_error lyrics i = Some li -> line_started t li = true ->
  (forall m l', (n < m)%nat -> nth_error lyrics m = Some l' -> line_started t l' = false) ->
  (i <= n)%nat.
Proof.
  intros Hi Hs Ha. destruct (Nat.le_gt_cases i n) as [|Hgt]; [assumption|].
  rewrite (Ha i li Hgt Hi) in Hs. discriminate.
Qed.

Lemma getCurrentLyricIndex_nil (t : Z) :
  getCurrentLyricIndex [] t = if t <? 0 then -1 else 0.
Proof. unfold getCurrentLyricIndex. now destruct (t <? 0). Qed.

Lemma getCurrentLyricIndex_monotone (lyrics : list LyricLine) (t1 t2 : Z) :
  starts_sorted lyrics = true -> t1 <= t2 ->
  getCurrentLyricIndex lyrics t1 <= getCurrentLyricIndex lyrics t2.
Proof.
  intros Hsorted Ht.
  destruct lyrics as [|l0 rest].
  { rewrite !getCurrentLyricIndex_nil.
    destruct (Z.ltb_spec t1 0), (Z.ltb_spec t2 0); lia. }
  destruct (Z.ltb_spec t1 (line_startTime l0)) as [Hlt1 | Hge1].
  { assert (E1 : getCurrentLyricIndex (l0 :: rest) t1 = -1)
      by (unfold getCurrentLyricIndex; now rewrite (proj2 (Z.ltb_lt _ _) Hlt1)).
    rewrite E1.
    destruct (Z.ltb_spec t2 (line_startTime l0)) as [Hlt2 | Hge2].
    - unfold getCurrentLyricIndex. rewrite (proj2 (Z.ltb_lt _ _) Hlt2). lia.
    - destruct (getCurrentLyricIndex_cons l0 rest t2 Hge2)
        as [(k & _ & Hr & _) | [_ (k & _ & Hr & _)]]; rewrite Hr; lia. }
  assert (Hge2 : line_startTime l0 <= t2) by lia.
  destruct (last_started_exists l0 rest t1 Hge1) as (n1 & ln1 & Hn1 & Hs1 & Ha1).
  assert (HF1 : getCurrentLyricIndex (l0 :: rest) t1 <= Z.of_nat n1).
  { destruct (getCurrentLyricIndex_cons l0 rest t1 Hge1)
      as [(i1 & li1 & Hr & Hi1 & Hc1 & _) | [_ (k & lk & Hr & Hk & Hsk & Hak)]];
      rewrite Hr.
    - apply line_contains_iff in Hc1.
      pose proof (index_le_last_started _ t1 i1 n1 li1 ln1 Hi1
                    (proj2 (line_started_iff _ _) (proj1 Hc1)) Ha1). lia.
    - pose proof (index_le_last_started _ t1 k n1 lk ln1 Hk Hsk Ha1). lia. }
  destruct (getCurrentLyricIndex_cons l0 rest t2 Hge2)
    as [(i2 & li2 & Hr2 & Hi2 & Hc2 & Hb2) | [_ (k2 & lk2 & Hr2 & Hk2 & Hsk2 & Hak2)]];
    rewrite Hr2.
  - destruct (line_contains t1 li2) eqn:Hc12.
    + destruct (getCurrentLyricIndex_cons l0 rest t1 Hge1)
        as [(i1 & li1 & Hr1 & Hi1 & Hc1 & Hb1) | [Hnone1 _]].
      * rewrite Hr1. destruct (Nat.le_gt_cases i1 i2) as [|Hgt]; [lia|].
        rewrite (Hb1 i2 li2 Hgt Hi2) in Hc12. discriminate.
      * rewrite (Hnone1 li2 (nth_error_In _ _ Hi2)) in Hc12. discriminate.
    + apply line_contains_iff in Hc2.
      assert (Hst : t1 < line_startTime li2).
      { destruct (Z.lt_ge_cases t1 (line_startTime li2)) as [|Hle]; [assumption|].
        exfalso. assert (Hin : line_contains t1 li2 = true)
          by (apply line_contains_iff; lia). congruence. }
      destruct (Nat.le_gt_cases i2 n1) as [Hle | Hgt]; [|lia].
      apply line_started_iff in Hs1.
      pose proof (starts_sorted_nth _ Hsorted i2 n1 li2 ln1 Hle Hi2 Hn1). lia.
  - assert (Hs12 : line_started t2 ln1 = true)
      by (apply line_started_iff; apply line_started_iff in Hs1; lia).
    pose proof (index_le_last_started _ t2 n1 k2 ln1 lk2 Hn1 Hs12 Hak2). lia.
Qed.

(** C6 (counterexample): for lines whose startTimes are out of order, the
    increasing times 25 and 550 give the decreasing indices 2 and 1. *)
Lemma C6_unordered_lines_decrease :
  Sorted Z.lt [25; 550] /\
  ~ Sorted Z.le (map (getCurrentLyricIndex unordered_lines) [25; 550]).
Proof.
  split; [repeat constructor|].
  assert (E : map (getCurrentLyricIndex unordered_lines) [25; 550] = [2; 1])
    by reflexivity.
  rewrite E. intros H. inversion H as [|a l Hs Hd]; subst.
  inversion Hd; subst. lia.
Qed.

(** C6 (amended): when the lines' startTimes are non-decreasing in source
    order, the indices getCurrentLyricIndex returns along a strictly
    increasing sequence of times are non-decreasing. *)
Theorem C6_getCurrentLyricIndex_sorted_monotone (lyrics : list LyricLine) (ts : list Z) :
  starts_sorted lyrics = true -> Sorted Z.lt ts ->
  Sorted Z.le (map (getCurrentLyricIndex lyrics) ts).
Proof.
  intros Hsorted Hts. induction Hts as [|t ts Hts IH Hd]; simpl; constructor; [exact IH|].
  destruct ts as [|t' ts']; simpl; constructor.
  inversion Hd; subst. apply getCurrentLyricIndex_monotone; [exact Hsorted | lia].
Qed.

Lemma C6_getCurrentLyricIndex_sorted_monotone_witness :
  Sorted Z.le (map (getCurrentLyricIndex scenarioB) [100; 700; 1200]).
Proof.
  apply C6_getCurrentLyricIndex_sorted_monotone; [reflexivity|].
  repeat constructor.
Defined.

(** ** C7: the parse step of the pipeline *)

Lemma In_compact {A} (x : A) (l : list (option A)) :
  In x (compact l) <-> In (Some x) l.
Proof.
  induction l as [|[y|] r IH]; simpl; [tauto| |].
  - rewrite IH. split; intros [H|H]; auto; left; congruence.
  - rewrite IH. split; [auto|]. intros [H|H]; [discriminate|auto].
Qed.

Lemma processLyricData_words (ss : list SentenceData) :
  map words (compact (map process_sentence ss)) =
  map (fun s => map process_word (default [] (sd_words s))) (filter sentence_has_words ss).
Proof.
  induction ss as [|s r IH]; [reflexivity|].
  destruct s as [[[|w ws]|]]; simpl; rewrite ?IH; reflexivity.
Qed.

Lemma parse_word_valid (wd : WordData) (w : WordTiming) :
  parse_word wd = Some w -> text w <> ""%string /\ 0 <= startTime w < endTime w.
Proof.
  unfold parse_word.
  destruct (String.eqb (trim (default ""%string (wd_data wd))) "") eqn:Ht,
           (default 0 (wd_startTime wd) <? 0) eqn:Hs,
           (default 0 (wd_endTime wd) <=? default 0 (wd_startTime wd)) eqn:He;
    simpl; intros H; try discriminate.
  inversion H; subst w; simpl.
  apply String.eqb_neq in Ht. apply Z.ltb_ge in Hs. apply Z.leb_gt in He.
  split; [exact Ht | lia].
Qed.

Lemma parseLyricData_valid (st : option LyricDataStructure) (l : LyricLine) (w : WordTiming) :
  In l (parseLyricData st) -> In w (words l) ->
  text w <> ""%string /\ 0 <= startTime w < endTime w.
Proof.
  unfold parseLyricData. intros Hl Hw.
  destruct st as [[[ss|]]|]; simpl in Hl; try contradiction.
  apply In_compact, in_map_iff in Hl. destruct Hl as (s & Hs & _).
  unfold parse_sentence in Hs.
  destruct (default [] (sd_words s)) as [|w0 ws]; [discriminate|].
  destruct (compact (map parse_word (w0 :: ws))) as [|w1 wts] eqn:E; [discriminate|].
  inversion Hs; subst l. cbn [words] in Hw. rewrite <- E in Hw.
  apply In_compact, in_map_iff in Hw. destruct Hw as (wd & Hwd & _).
  exact (parse_word_valid wd w Hwd).
Qed.

(** The validating parser drops the word the pipeline keeps. *)
Example parseLyricData_drops_invalid_word :
  parseLyricData (ld_data raw_invalid_word) = [].
Proof. reflexivity. Qed.

(** C7 (counterexample): the pipeline's parser keeps a word with blank
    text, a negative startTime and endTime <= startTime, untrimmed. *)
Lemma C7_pipeline_keeps_invalid_word :
  processLyricData raw_invalid_word =
  [mkLine "  " [mkWord "  " (-5) (-10)] (-5) (-10)].
Proof. reflexivity. Qed.

(** C7 (amended): the pipeline's parser (processLyricData) keeps one line
    per raw line whose words field is present and non-empty, in order, and
    each kept line's words are the raw words with only missing fields
    defaulted (text "", times 0): no trim and no validation.  The separate
    parser parseLyricData does validate: each word it outputs has non-empty
    text, startTime >= 0 and endTime > startTime. *)
Theorem C7_pipeline_parse_passthrough (e : option Z) (ss : list SentenceData) :
  map words (processLyricData (mkLyricData e (Some (mkStructure (Some ss))))) =
  map (fun s => map (fun wd => mkWord (default ""%string (wd_data wd))
                                 (default 0 (wd_startTime wd)) (default 0 (wd_endTime wd)))
                  (default [] (sd_words s)))
      (filter sentence_has_words ss) /\
  (forall st l w, In l (parseLyricData st) -> In w (words l) ->
     text w <> ""%string /\ 0 <= startTime w < endTime w).
Proof.
  split.
  - exact (processLyricData_words ss).
  - exact parseLyricData_valid.
Qed.

Lemma C7_pipeline_parse_passthrough_witness :
  text (mkWord "a" 0 100) <> ""%string /\ 0 <= startTime (mkWord "a" 0 100) < endTime (mkWord "a" 0 100).
Proof.
  apply (proj2 (C7_pipeline_parse_passthrough None [])
           (ld_data raw_scenarioA) (mkLine "a b" [word_a; word_b] 0 150)).
  - simpl. now left.
  - simpl. now left.
Defined.

(** ** C8: minimum gap between consecutive words *)

(** C8 (code defect): under delay -1000, the gap pass of the second word
    computes max(-400, -100 + 100) = 0, which JavaScript's [|| startTime]
    treats as falsy, so the word keeps startTime -400 although the previous
    word ends at -100: the gap is -300, not >= 100.  App's pipeline, fed the
    same raw data, produces the same lines. *)
Theorem C8_gap_lost_when_max_is_zero :
  normalizeTiming [gap_zero_line] (-1000) =
  [mkLine "a b" [mkWord "a" (-500) (-100); mkWord "b" (-400) (-100)] (-500) (-100)] /\
  lyricsWithTiming raw_gap_zero (-1000) false =
  [mkLine "a b" [mkWord "a" (-500) (-100); mkWord "b" (-400) (-100)] (-500) (-100)] /\
  -400 < -100 + 100.
Proof. split; [reflexivity | split; [reflexivity | lia]]. Qed.

(** * Further properties of the code *)

(** ** Ranges of the locators *)

(** On a non-empty line list, getCurrentLyricIndex returns -1 or a valid
    index, and -1 exactly when the time is before the first line's start. *)
Theorem getCurrentLyricIndex_range (l0 : LyricLine) (rest : list LyricLine) (t : Z) :
  -1 <= getCurrentLyricIndex (l0 :: rest) t < Z.of_nat (List.length (l0 :: rest)) /\
  (getCurrentLyricIndex (l0 :: rest) t = -1 <-> t < line_startTime l0).
Proof.
  destruct (Z.ltb_spec t (line_startTime l0)) as [Hlt | Hge].
  - assert (E : getCurrentLyricIndex (l0 :: rest) t = -1)
      by (unfold getCurrentLyricIndex; now rewrite (proj2 (Z.ltb_lt _ _) Hlt)).
    rewrite E. simpl List.length. split; [lia | tauto].
  - destruct (getCurrentLyricIndex_cons l0 rest t Hge)
      as [(n & l & Hr & Hn & _) | [_ (n & l & Hr & Hn & _)]];
      rewrite Hr; pose proof (proj1 (nth_error_Some (l0 :: rest) n) ltac:(congruence));
      split; [lia | split; intros; lia | lia | split; intros; lia].
Qed.

(** getCurrentWordIndex returns a value between -1 and the number of words. *)
Theorem getCurrentWordIndex_range (lyric : LyricLine) (t : Z) :
  -1 <= getCurrentWordIndex lyric t <= Z.of_nat (List.length (words lyric)).
Proof.
  unfold getCurrentWordIndex, findIndex.
  destruct (findIndex_from_cases (word_contains t) (words lyric) 0)
    as [[Hf _] | (n & w & Hf & Hn & _)]; rewrite Hf.
  - simpl negb. cbv iota. destruct (t <? first_startTime (words lyric)); lia.
  - replace (0 + Z.of_nat n =? -1) with false by (symmetry; apply Z.eqb_neq; lia).
    simpl negb. cbv iota.
    pose proof (proj1 (nth_error_Some (words lyric) n) ltac:(congruence)). lia.
Qed.

(** ** normalizeTiming keeps the text and shape of the lines *)

Lemma enforce_gap_texts (prev : WordTiming) (ws : list WordTiming) :
  map text (enforce_gap prev ws) = map text ws.
Proof.
  revert prev; induction ws as [|w r IH]; intros prev; simpl; [reflexivity|].
  now rewrite IH.
Qed.

Lemma gap_words_texts (ws : list WordTiming) : map text (gap_words ws) = map text ws.
Proof. destruct ws; simpl; [reflexivity|]. now rewrite enforce_gap_texts. Qed.

(** normalizeTiming keeps the number and order of lines, each line's text,
    and the texts of its words in order (hence their number). *)
Theorem normalizeTiming_keeps_texts (lyrics : list LyricLine) (delayMs : Z) :
  map line_text (normalizeTiming lyrics delayMs) = map line_text lyrics /\
  map (fun l => map text (words l)) (normalizeTiming lyrics delayMs) =
  map (fun l => map text (words l)) lyrics.
Proof.
  unfold normalizeTiming. rewrite !map_map. split; apply map_ext; intros l; [reflexivity|].
  unfold normalize_line. simpl. rewrite gap_words_texts, map_map. reflexivity.
Qed.

Lemma enforce_gap_starts (prev : WordTiming) (ws : list WordTiming) (i : nat) (w : WordTiming) :
  nth_error (enforce_gap prev ws) i = Some w ->
  exists w', nth_error ws i = Some w' /\ startTime w' <= startTime w.
Proof.
  revert prev i; induction ws as [|x r IH]; intros prev i H; [destruct i; discriminate|].
  destruct i as [|i]; simpl in H.
  - inversion H; subst w. exists x. split; [reflexivity|]. simpl.
    unfold js_or, max2. destruct (Z.max (startTime x) (endTime prev + 100) =? 0); lia.
  - exact (IH x i H).
Qed.

Lemma gap_words_starts (ws : list WordTiming) (i : nat) (w : WordTiming) :
  nth_error (gap_words ws) i = Some w ->
  exists w', nth_error ws i = Some w' /\ startTime w' <= startTime w.
Proof.
  destruct ws as [|x r]; [destruct i; discriminate|].
  destruct i as [|i]; simpl; intros H.
  - inversion H; subst. exists w. split; [reflexivity | lia].
  - exact (enforce_gap_starts x r i w H).
Qed.

(** normalizeTiming never starts a word before its startTime shifted by
    delayMs, and each line starts exactly at the shifted startTime of its
    first word. *)
Theorem normalizeTiming_start_bounds (lyrics : list LyricLine) (delayMs : Z)
    (n : nat) (l0 l : LyricLine) :
  nth_error lyrics n = Some l0 -> nth_error (normalizeTiming lyrics delayMs) n = Some l ->
  (forall i w0 w, nth_error (words l0) i = Some w0 -> nth_error (words l) i = Some w ->
     startTime w0 + delayMs <= startTime w) /\
  (forall w0, nth_error (words l0) 0 = Some w0 -> line_startTime l = startTime w0 + delayMs).
Proof.
  intros H0 H. unfold normalizeTiming in H. rewrite nth_error_map, H0 in H.
  inversion H; subst l. clear H. split.
  - intros i w0 w Hw0 Hw. cbn [words normalize_line] in Hw.
    destruct (gap_words_starts _ _ _ Hw) as (w' & Hw' & Hle).
    rewrite nth_error_map, Hw0 in Hw'. inversion Hw'; subst w'.
    rewrite normalize_word_start in Hle. exact Hle.
  - intros w0 Hw0. unfold normalize_line. cbn [line_startTime].
    destruct (words l0) as [|x r]; [discriminate|]. simpl in Hw0 |- *.
    inversion Hw0; subst. reflexivity.
Qed.

Lemma normalizeTiming_start_bounds_witness :
  (forall i w0 w, nth_error (words line_ab) i = Some w0 ->
     nth_error (words (normalize_line 0 line_ab)) i = Some w ->
     startTime w0 + 0 <= startTime w) /\
  (forall w0, nth_error (words line_ab) 0 = Some w0 ->
     line_startTime (normalize_line 0 line_ab) = startTime w0 + 0).
Proof. apply (normalizeTiming_start_bounds scenarioA 0 0%nat); reflexivity. Defined.

(** ** mergeSentenceWords and toggleSentenceMerge *)

Lemma merge_line_at_most_one (l : LyricLine) : (List.length (words (merge_line l)) <= 1)%nat.
Proof.
  unfold merge_line. destruct (Nat.leb_spec (List.length (words l)) 1); simpl; lia.
Qed.

Lemma merge_line_idem (l : LyricLine) : merge_line (merge_line l) = merge_line l.
Proof.
  unfold merge_line at 1.
  destruct (Nat.leb_spec (List.length (words (merge_line l))) 1) as [|H]; [reflexivity|].
  pose proof (merge_line_at_most_one l). lia.
Qed.

(** Every line mergeSentenceWords returns has at most one word, and merging
    twice is the same as merging once. *)
Theorem mergeSentenceWords_idempotent (lyrics : list LyricLine) :
  (forall l, In l (mergeSentenceWords lyrics) -> (List.length (words l) <= 1)%nat) /\
  mergeSentenceWords (mergeSentenceWords lyrics) = mergeSentenceWords lyrics.
Proof.
  destruct lyrics as [|x r]; [split; [intros l []|reflexivity]|].
  cbn [mergeSentenceWords]. split.
  - intros l Hl. apply in_map_iff in Hl. destruct Hl as (l' & <- & _).
    apply merge_line_at_most_one.
  - simpl. f_equal; [apply merge_line_idem|].
    rewrite map_map. apply map_ext. intros. apply merge_line_idem.
Qed.

Lemma merge_line_one (l : LyricLine) :
  (1 <= List.length (words l))%nat -> List.length (words (merge_line l)) = 1%nat.
Proof.
  intros H. unfold merge_line.
  destruct (Nat.leb_spec (List.length (words l)) 1); simpl; lia.
Qed.

(** Toggling word-by-word lines (every line has a word, some line has
    several) merges them, and toggling the result again gives back the
    original lines. *)
Theorem toggleSentenceMerge_round_trip (lyrics originalLyrics : list LyricLine) :
  lyrics <> [] -> originalLyrics <> [] ->
  (forall l, In l lyrics -> (1 <= List.length (words l))%nat) ->
  (exists l, In l lyrics /\ List.length (words l) <> 1%nat) ->
  toggleSentenceMerge lyrics originalLyrics = mergeSentenceWords lyrics /\
  toggleSentenceMerge (toggleSentenceMerge lyrics originalLyrics) originalLyrics =
  originalLyrics.
Proof.
  intros Hne Hone Hpos (l & Hl & Hl1).
  assert (Hnot : forallb (fun lyric => (List.length (words lyric) =? 1)%nat) lyrics = false).
  { apply not_true_is_false. intros Hall. rewrite forallb_forall in Hall.
    apply Hl1. apply Nat.eqb_eq. exact (Hall l Hl). }
  assert (Ht : toggleSentenceMerge lyrics originalLyrics = mergeSentenceWords lyrics).
  { unfold toggleSentenceMerge.
    destruct lyrics as [|x r]; [congruence|]. destruct originalLyrics as [|y r']; [congruence|].
    now rewrite Hnot. }
  split; [exact Ht|]. rewrite Ht.
  destruct lyrics as [|x r]; [congruence|]. cbn [mergeSentenceWords].
  unfold toggleSentenceMerge. destruct originalLyrics as [|y r']; [congruence|].
  cbn [map].
  replace (forallb (fun lyric => (List.length (words lyric) =? 1)%nat)
             (merge_line x :: map merge_line r)) with true; [reflexivity|].
  symmetry. apply forallb_forall. intros m Hm. apply Nat.eqb_eq.
  destruct Hm as [<- | Hm].
  - apply merge_line_one, Hpos. now left.
  - apply in_map_iff in Hm. destruct Hm as (m' & <- & Hm').
    apply merge_line_one, Hpos. now right.
Qed.

Lemma toggleSentenceMerge_round_trip_witness :
  toggleSentenceMerge scenarioA scenarioA = mergeSentenceWords scenarioA /\
  toggleSentenceMerge (toggleSentenceMerge scenarioA scenarioA) scenarioA = scenarioA.
Proof.
  apply toggleSentenceMerge_round_trip; try discriminate.
  - intros l [<- | []]. simpl. lia.
  - exists line_ab. split; [now left | discriminate].
Defined.

(** ** trim and the validating parsers *)

Section strip.
Variable encs : list (list ascii).
Hypothesis encs_nonempty : forall e, In e encs -> e <> [].

Lemma is_prefix_app (e l q : list ascii) :
  is_prefix e l = true -> is_prefix e (l ++ q) = true.
Proof.
  revert l; induction e as [|a e IH]; intros l H; [reflexivity|].
  destruct l as [|b l]; [discriminate|]. simpl in *.
  apply andb_prop in H as [H1 H2]. now rewrite H1, IH.
Qed.

Lemma find_none_intro {X} (f : X -> bool) (l : list X) :
  (forall x, In x l -> f x = false) -> find f l = None.
Proof.
  induction l as [|x r IH]; intros H; simpl; [reflexivity|].
  rewrite (H x (or_introl eq_refl)). apply IH. intros y Hy. apply H. now right.
Qed.

Lemma is_prefix_length (e l : list ascii) :
  is_prefix e l = true -> (List.length e <= List.length l)%nat.
Proof.
  revert l; induction e as [|a e IH]; intros l H; simpl; [lia|].
  destruct l as [|b l]; [discriminate|]. simpl in H.
  apply andb_prop in H as [_ H]. specialize (IH l H). simpl. lia.
Qed.

Lemma strip_prefixes_suffix (f : nat) (l : list ascii) :
  exists p, l = p ++ strip_prefixes encs f l.
Proof.
  revert l; induction f as [|f IH]; intros l; simpl; [now exists []|].
  destruct (find (fun e => is_prefix e l) encs) as [e|]; [|now exists []].
  destruct (IH (skipn (List.length e) l)) as [p Hp].
  exists (firstn (List.length e) l ++ p). rewrite <- app_assoc, <- Hp.
  symmetry. apply firstn_skipn.
Qed.

Lemma strip_prefixes_done (f : nat) (l : list ascii) :
  (List.length l <= f)%nat ->
  find (fun e => is_prefix e (strip_prefixes encs f l)) encs = None.
Proof.
  revert l; induction f as [|f IH]; intros l Hl; simpl.
  - destruct l; [|simpl in Hl; lia].
    apply find_none_intro. intros e He.
    destruct e as [|a e]; [contradiction (encs_nonempty [] He); reflexivity|].
    reflexivity.
  - destruct (find (fun e => is_prefix e l) encs) as [e|] eqn:E; [|exact E].
    apply IH. apply find_some in E as [He Hp].
    apply is_prefix_length in Hp. rewrite length_skipn.
    destruct e as [|a e]; [contradiction (encs_nonempty [] He); reflexivity|].
    simpl in *. lia.
Qed.

Lemma strip_prefixes_fix (f : nat) (l : list ascii) :
  find (fun e => is_prefix e l) encs = None -> strip_prefixes encs f l = l.
Proof. destruct f; simpl; [reflexivity|]. intros E; now rewrite E. Qed.

Lemma strip_prefixes_shorter (l t q : list ascii) :
  find (fun e => is_prefix e l) encs = None -> l = t ++ q ->
  find (fun e => is_prefix e t) encs = None.
Proof.
  intros E ->. apply find_none_intro. intros e He.
  apply not_true_is_false. intros Hp.
  apply (is_prefix_app e t q) in Hp.
  pose proof (find_none _ _ E e He) as Hf. simpl in Hf. congruence.
Qed.

End strip.

Lemma utf8_encode_nonempty (cp : N) : utf8_encode cp <> [].
Proof.
  unfold utf8_encode.
  destruct (cp <? 128)%N; [discriminate|]. destruct (cp <? 2048)%N; discriminate.
Qed.

Lemma ws_encodings_nonempty : forall e, In e ws_encodings -> e <> [].
Proof.
  intros e He. apply in_map_iff in He as (cp & <- & _). apply utf8_encode_nonempty.
Qed.

Lemma ws_encodings_rev_nonempty :
  forall e, In e (map (@rev ascii) ws_encodings) -> e <> [].
Proof.
  intros e He. apply in_map_iff in He as (e' & <- & He').
  intros H. apply (ws_encodings_nonempty e' He').
  rewrite <- (rev_involutive e'), H. reflexivity.
Qed.

(** lodash [trim] is idempotent: its result has no leading or trailing
    whitespace character left to strip. *)
Theorem trim_idempotent (s : string) : trim (trim s) = trim s.
Proof.
  unfold trim at 2 3. set (l := list_ascii_of_string s).
  set (m := trim_end l). set (t := trim_start m).
  unfold trim. rewrite list_ascii_of_string_of_list_ascii. f_equal.
  set (rencs := map (@rev ascii) ws_encodings).
  assert (Hm : find (fun e => is_prefix e (rev m)) rencs = None).
  { unfold m, trim_end. rewrite rev_involutive.
    apply strip_prefixes_done; [exact ws_encodings_rev_nonempty | rewrite length_rev; lia]. }
  destruct (strip_prefixes_suffix ws_encodings (List.length m) m) as [p Hp].
  fold (trim_start m) t in Hp.
  assert (Ht : find (fun e => is_prefix e (rev t)) rencs = None).
  { apply (strip_prefixes_shorter rencs (rev m) (rev t) (rev p) Hm).
    rewrite Hp at 1. apply rev_app_distr. }
  assert (He : trim_end t = t).
  { unfold trim_end. rewrite (strip_prefixes_fix _ _ _ Ht). apply rev_involutive. }
  rewrite He. unfold trim_start at 1. apply strip_prefixes_fix.
  unfold t, trim_start. apply strip_prefixes_done; [exact ws_encodings_nonempty | lia].
Qed.

Example trim_strips_unicode_spaces :
  trim nbsp_la = "la"%string /\ trim la_ideographic_space = "la"%string.
Proof. split; vm_compute; reflexivity. Qed.

Lemma parse_word_trimmed (wd : WordData) (w : WordTiming) :
  parse_word wd = Some w -> trim (text w) = text w.
Proof.
  unfold parse_word.
  destruct (String.eqb (trim (default ""%string (wd_data wd))) "" ||
            (default 0 (wd_startTime wd) <? 0) ||
            (default 0 (wd_endTime wd) <=? default 0 (wd_startTime wd)));
    intros H; [discriminate|].
  inversion H; subst w. apply trim_idempotent.
Qed.

(** Every line parseLyricData returns has at least one word, its text is
    its words' texts joined by spaces, and every word's text is trimmed. *)
Theorem parseLyricData_lines_trimmed (st : option LyricDataStructure) (l : LyricLine) :
  In l (parseLyricData st) ->
  words l <> [] /\ line_text l = join_texts (words l) /\
  forall w, In w (words l) -> trim (text w) = text w.
Proof.
  unfold parseLyricData. intros Hl.
  destruct st as [[[ss|]]|]; simpl in Hl; try contradiction.
  apply In_compact, in_map_iff in Hl. destruct Hl as (s & Hs & _).
  unfold parse_sentence in Hs.
  destruct (default [] (sd_words s)) as [|w0 ws]; [discriminate|].
  destruct (compact (map parse_word (w0 :: ws))) as [|w1 wts] eqn:E; [discriminate|].
  inversion Hs; subst l. cbn [words line_text]. split; [discriminate|]. split; [reflexivity|].
  intros w Hw. rewrite <- E in Hw.
  apply In_compact, in_map_iff in Hw. destruct Hw as (wd & Hwd & _).
  exact (parse_word_trimmed wd w Hwd).
Qed.

Lemma parseLyricData_lines_trimmed_witness :
  words line_ab <> [] /\ line_text line_ab = join_texts (words line_ab) /\
  forall w, In w (words line_ab) -> trim (text w) = text w.
Proof.
  apply (parseLyricData_lines_trimmed (ld_data raw_scenarioA)). simpl. now left.
Defined.

(** parseLyricDataOptimized returns no line unless [err] is present and 0;
    every line it returns has at least one word, and every word's text is
    non-empty and trimmed. *)
Theorem parseLyricDataOptimized_valid (lyricData : LyricData) :
  (err lyricData <> Some 0 -> parseLyricDataOptimized lyricData = []) /\
  forall l, In l (parseLyricDataOptimized lyricData) ->
    words l <> [] /\
    forall w, In w (words l) -> text w <> ""%string /\ trim (text w) = text w.
Proof.
  unfold parseLyricDataOptimized. split.
  - intros Herr. destruct (err lyricData) as [[|p|p]|]; try reflexivity. congruence.
  - intros l Hl.
    destruct (err lyricData) as [[|p|p]|]; try contradiction.
    destruct (ld_data lyricData) as [[[ss|]]|]; try contradiction.
    apply In_compact, in_map_iff in Hl. destruct Hl as (s & Hs & _).
    unfold optimized_sentence in Hs.
    destruct (filter optimized_word_ok (default [] (sd_words s))) as [|w0 ws] eqn:E;
      [discriminate|].
    inversion Hs; subst l. cbn [words]. split; [discriminate|].
    intros w Hw. change (In w (map optimized_word (w0 :: ws))) in Hw.
    apply in_map_iff in Hw. destruct Hw as (wd & <- & Hwd).
    rewrite <- E in Hwd. apply filter_In in Hwd. destruct Hwd as [_ Hok].
    unfold optimized_word_ok in Hok. unfold optimized_word. cbn [text].
    destruct (wd_data wd) as [d|]; [|discriminate]. simpl.
    split; [|apply trim_idempotent].
    apply negb_true_iff, String.eqb_neq in Hok. exact Hok.
Qed.

Lemma parseLyricDataOptimized_valid_witness :
  parseLyricDataOptimized (mkLyricData (Some 1) (ld_data raw_scenarioA)) = [] /\
  In (mkLine "la" [mkWord "la" 0 100] 0 100) (parseLyricDataOptimized raw_nbsp) /\
  [mkWord "la" 0 100] <> [] /\
  (forall w, In w [mkWord "la" 0 100] -> text w <> ""%string /\ trim (text w) = text w).
Proof.
  split; [apply (proj1 (parseLyricDataOptimized_valid _)); discriminate|].
  assert (Hin : In (mkLine "la" [mkWord "la" 0 100] 0 100)
                  (parseLyricDataOptimized raw_nbsp))
    by (vm_compute; left; reflexivity).
  split; [exact Hin|].
  exact (proj2 (parseLyricDataOptimized_valid raw_nbsp) _ Hin).
Defined.

(** Once its JSON is parsed, parseLyricFile returns the same lines as
    parseLyricData on the [data] field: its missing early return on an
    empty words list changes nothing. *)
Theorem parseLyricFile_agrees (data : LyricData) :
  parseLyricFile_parsed data = parseLyricData (ld_data data).
Proof.
  unfold parseLyricFile_parsed, parseLyricData.
  destruct (ld_data data) as [[[ss|]]|]; try reflexivity. simpl. f_equal.
  apply map_ext. intros s. unfold file_sentence, parse_sentence.
  destruct (default [] (sd_words s)); reflexivity.
Qed.

(** ** syncLyrics *)

Lemma clampQ_unit (n : Q) : (0 <= clampQ n 0 1 <= 1)%Q.
Proof.
  unfold clampQ.
  destruct (Qle_bool n 1) eqn:H1; [apply Qle_bool_iff in H1|];
  [destruct (Qle_bool 0 n) eqn:H0 | destruct (Qle_bool 0 1) eqn:H0];
  try apply Qle_bool_iff in H0;
  split; try assumption; try discriminate; try (unfold Qle; simpl; lia).
Qed.

(** The progress syncLyrics reports always lies between 0 and 1. *)
Theorem syncLyrics_progress_range (lyrics : list LyricLine) (currentTime : Z) :
  (0 <= progress (syncLyrics lyrics currentTime) <= 1)%Q.
Proof.
  unfold syncLyrics.
  destruct (findLastIndex (line_started currentTime) lyrics =? -1).
  - simpl. split; unfold Qle; simpl; lia.
  - cbn zeta. match goal with |- context [if ?c then _ else _] => destruct c end.
    + apply clampQ_unit.
    + simpl. split; unfold Qle; simpl; lia.
Qed.

(** syncLyrics reports no current line, index 0, word index -1, progress 0
    and the first line as next while no line has started; otherwise its
    current line is the last line already started, the next line is the one
    after it, and the word index is getCurrentWordIndex on the current line. *)
Theorem syncLyrics_spec (lyrics : list LyricLine) (t : Z) :
  ((forall l, In l lyrics -> t < line_startTime l) ->
     syncLyrics lyrics t = mkSync None (hd_error lyrics) 0 (-1) 0%Q) /\
  (forall n l, nth_error lyrics n = Some l -> line_startTime l <= t ->
     (forall m l', (n < m)%nat -> nth_error lyrics m = Some l' -> t < line_startTime l') ->
     index (syncLyrics lyrics t) = Z.of_nat n /\
     currentLine (syncLyrics lyrics t) = Some l /\
     next (syncLyrics lyrics t) = nth_error lyrics (S n) /\
     currentWordIndex (syncLyrics lyrics t) = getCurrentWordIndex l t).
Proof.
  split.
  - intros Hnone. unfold syncLyrics, findLastIndex.
    rewrite findLastIndex_from_none; [reflexivity|].
    intros l Hl. apply Z.leb_gt. exact (Hnone l Hl).
  - intros n l Hn Hs Ha. unfold syncLyrics, findLastIndex.
    rewrite (findLastIndex_from_last _ _ 0 (-1) n l Hn)
      by (try (apply line_started_iff; exact Hs);
          intros m l' Hm Hl'; apply Z.leb_gt; exact (Ha m l' Hm Hl')).
    replace (0 + Z.of_nat n =? -1) with false by (symmetry; apply Z.eqb_neq; lia).
    replace (Z.to_nat (0 + Z.of_nat n)) with n by lia.
    replace (Z.to_nat (0 + Z.of_nat n + 1)) with (S n) by lia.
    rewrite Hn. cbn. repeat split; lia.
Qed.

Lemma syncLyrics_spec_witness :
  index (syncLyrics scenarioB 700) = 0 /\
  currentLine (syncLyrics scenarioB 700) = Some (mkLine "x" [] 0 500) /\
  next (syncLyrics scenarioB 700) = Some (mkLine "y" [] 1000 1500) /\
  currentWordIndex (syncLyrics scenarioB 700) = getCurrentWordIndex (mkLine "x" [] 0 500) 700.
Proof.
  apply (proj2 (syncLyrics_spec scenarioB 700) 0%nat); try reflexivity; try (simpl; lia).
  intros [|[|m]] l' Hm Hl'; try lia; simpl in Hl'.
  - inversion Hl'; subst. simpl. lia.
  - destruct m; discriminate.
Defined.

(** ** The lyric store's processed-lyrics cache *)

Lemma getProcessedLyrics_fallback (env : Env) (s : LyricState) :
  currentLyricData s = None ->
  getProcessedLyrics env s =
  getProcessedLyrics env
    (setCurrentLyricData
       (Some (match customLyricData s with
              | Some c => cl_data c
              | None => default_ref env
              end)) s).
Proof.
  intros H. unfold getProcessedLyrics. rewrite H.
  destruct (customLyricData s); cbn; destruct (parsedCache s); reflexivity.
Qed.

Lemma getProcessedLyrics_current (env : Env) (s : LyricState) (d : nat)
  (r : list LyricLine) (s' : LyricState) :
  currentLyricData s = Some d -> getProcessedLyrics env s = (r, s') ->
  (exists c, parsedCache s = Some c /\ isCacheValid s = true /\
             r = processedLyrics c /\ s' = s) \/
  (r = store_pipeline env d (lyricDelay s) (mergeSentences s) /\
   (s' = s \/
    s' = mkState (Some d) (lyricDelay s) (mergeSentences s) (customLyricData s)
           (Some (mkCache d r (lyricDelay s) (mergeSentences s))))).
Proof.
  intros Hd H. unfold getProcessedLyrics in H. rewrite Hd in H.
  cbn beta iota zeta in H.
  assert (Hmiss :
    match parseLyricDataOptimized (heap env d) with
    | [] => ([], s)
    | processed =>
        (normalizeTiming (if mergeSentences s then mergeSentenceWords processed
                          else processed) (lyricDelay s),
         mkState (currentLyricData s) (lyricDelay s) (mergeSentences s)
           (customLyricData s)
           (Some (mkCache d (normalizeTiming (if mergeSentences s
                                              then mergeSentenceWords processed
                                              else processed) (lyricDelay s))
                    (lyricDelay s) (mergeSentences s))))
    end = (r, s') ->
    r = store_pipeline env d (lyricDelay s) (mergeSentences s) /\
    (s' = s \/
     s' = mkState (Some d) (lyricDelay s) (mergeSentences s) (customLyricData s)
            (Some (mkCache d r (lyricDelay s) (mergeSentences s))))).
  { unfold store_pipeline.
    destruct (parseLyricDataOptimized (heap env d)) as [|p ps]; intros Hm;
      injection Hm as <- <-.
    - destruct (mergeSentences s); split; auto.
    - rewrite Hd. split; [reflexivity | right; reflexivity]. }
  destruct (parsedCache s) as [c0|] eqn:Hc.
  - destruct (isCacheValid s) eqn:Hv.
    + left. inversion H; subst. exists c0. auto.
    + right. apply Hmiss. exact H.
  - right. apply Hmiss. exact H.
Qed.



Lemma getProcessedLyrics_delay (env : Env) (s : LyricState) :
  lyricDelay (snd (getProcessedLyrics env s)) = lyricDelay s.
Proof.
  destruct (currentLyricData s) as [d|] eqn:Hd.
  - destruct (getProcessedLyrics env s) as [r s'] eqn:H. cbn.
    destruct (getProcessedLyrics_current env s d r s' Hd H)
      as [(c & _ & _ & _ & Hs') | (_ & [Hs' | Hs'])]; subst; reflexivity.
  - rewrite (getProcessedLyrics_fallback env s Hd).
    set (s0 := setCurrentLyricData _ s).
    destruct (getProcessedLyrics env s0) as [r s'] eqn:H. cbn.
    destruct (getProcessedLyrics_current env s0 _ r s' eq_refl H)
      as [(c & _ & _ & _ & Hs') | (_ & [Hs' | Hs'])]; subst; reflexivity.
Qed.







(** Calling getProcessedLyrics a second time on the state the first call
    left behind returns the same lines and leaves the state unchanged. *)
Theorem getProcessedLyrics_repeat (env : Env) (s : LyricState) :
  getProcessedLyrics env (snd (getProcessedLyrics env s)) = getProcessedLyrics env s.
Proof.
  assert (Hcur : forall s0 d, currentLyricData s0 = Some d ->
            getProcessedLyrics env (snd (getProcessedLyrics env s0)) =
            getProcessedLyrics env s0).
  { intros s0 d Hd.
    destruct (getProcessedLyrics env s0) as [r s'] eqn:H. cbn.
    destruct (getProcessedLyrics_current env s0 d r s' Hd H)
      as [(c & _ & _ & _ & Hs') | (_ & [Hs' | Hs'])]; subst; try exact H.
    unfold getProcessedLyrics at 1. cbn.
    rewrite Z.eqb_refl, Bool.eqb_reflx, Nat.eqb_refl. reflexivity. }
  destruct (currentLyricData s) as [d|] eqn:Hd.
  - exact (Hcur s d Hd).
  - rewrite (getProcessedLyrics_fallback env s Hd).
    eapply Hcur. reflexivity.
Qed.

(** The store's delay stays within [-10000, 10000] ms whatever actions run
    from the initial state, as long as every delay that loadFromStorage
    restores lies in that range: it is the one action that does not clamp. *)
Theorem run_lyricDelay_bounded (env : Env) (n : nat) (actions : list StoreAction) :
  (forall sv b z, In (ALoadFromStorage (Some sv) b) actions ->
     sv_lyricDelay sv = Some z -> -10000 <= z <= 10000) ->
  -10000 <= lyricDelay (w_state (run (mkWorld env n initialState) actions)) <= 10000.
Proof.
  unfold run. intros Hsaved.
  assert (Hstep : forall w a,
            (forall sv b z, a = ALoadFromStorage (Some sv) b ->
               sv_lyricDelay sv = Some z -> -10000 <= z <= 10000) ->
            -10000 <= lyricDelay (w_state w) <= 10000 ->
            -10000 <= lyricDelay (w_state (step w a)) <= 10000).
  { intros w a Ha Hw. destruct a as [x|x|m|x f| | | | |saved b]; cbn; try lia.
    - unfold clamp. lia.
    - rewrite getProcessedLyrics_delay. exact Hw.
    - unfold loadFromStorage.
      destruct saved as [sv|]; [|exact Hw].
      assert (Hz : -10000 <= match sv_lyricDelay sv with
                             | Some z => z
                             | None => lyricDelay (w_state w)
                             end <= 10000).
      { destruct (sv_lyricDelay sv) as [z|] eqn:E; [exact (Ha sv b z eq_refl E) | exact Hw]. }
      destruct (sv_customLyricData sv) as [[sc|]|];
        [destruct (sc_data sc) as [v|]| |];
        destruct (sv_parsedCache sv) as [[sk|]|];
        try destruct b; exact Hz. }
  generalize (mkWorld env n initialState)
    (ltac:(cbn; lia) : -10000 <= lyricDelay (w_state (mkWorld env n initialState)) <= 10000).
  induction actions as [|a rest IH]; intros w Hw; cbn; [exact Hw|].
  apply IH.
  - intros sv b z Hin. apply (Hsaved sv b z). now right.
  - apply Hstep; [|exact Hw]. intros sv b z -> Hz. apply (Hsaved sv b z); [now left | exact Hz].
Qed.

Lemma run_lyricDelay_bounded_witness :
  (forall sv b z, In (ALoadFromStorage (Some sv) b) restore_stale_cache ->
     sv_lyricDelay sv = Some z -> -10000 <= z <= 10000) /\
  -10000 <= lyricDelay (w_state (run (mkWorld store_env 1 initialState) restore_stale_cache))
    <= 10000.
Proof.
  assert (H : forall sv b z, In (ALoadFromStorage (Some sv) b) restore_stale_cache ->
                sv_lyricDelay sv = Some z -> -10000 <= z <= 10000).
  { intros sv b z Hin Hz. unfold restore_stale_cache in Hin.
    destruct Hin as [Hin | [Hin | []]]; try discriminate.
    injection Hin as <- <-. cbn in Hz. injection Hz as <-. lia. }
  split; [exact H | exact (run_lyricDelay_bounded store_env 1 restore_stale_cache H)].
Defined.
